(** * wearpact-cms: header theme propagation and navigation rendering

    A shallow embedding of the client components

    - [HeaderClient]    (src/Header/Component.client.tsx)
    - [HeaderNav]       (src/Header/Nav/index.tsx)
    - [Footer]          (src/Footer/Component.tsx)
    - [HighImpactHero]  (the high impact hero block)

    Components are functions from their props and the state cells they read
    to the effects they register and the element tree they return.  The
    hooks they use ([useState], [useEffect], the header theme context) are
    given by a small runtime: a store of state cells, effects with
    dependency arrays and cleanups, and the commit that runs after a
    render. *)

From stdpp Require Import base option list strings gmap.

Open Scope string_scope.

Set Warnings "-register-all".

(** ** JavaScript values at the component boundary *)

(** A value of TypeScript type [A | null | undefined]. *)
Inductive Nullable (A : Type) : Type :=
| Undefined
| Null
| Value (a : A).
Arguments Undefined {A}.
Arguments Null {A}.
Arguments Value {A} a.

Inductive JSError : Type :=
| TypeError (msg : string).

(** The outcome of evaluating an expression: a value or a thrown error. *)
Inductive Completion (A : Type) : Type :=
| Normal (a : A)
| Throw (e : JSError).
Arguments Normal {A} a.
Arguments Throw {A} e.

#[global] Instance Completion_ret : MRet Completion := λ A a, Normal a.
#[global] Instance Completion_bind : MBind Completion := λ A B f m,
  match m with
  | Normal a => f a
  | Throw e => Throw e
  end.

(** ToBoolean, per type. Objects and arrays are always truthy, a string is
    truthy when it is not empty, [null] and [undefined] are falsy. *)
Class Truthy (A : Type) := truthy : A → bool.

#[global] Instance string_truthy : Truthy string :=
  λ s, negb (String.eqb s "").
#[global] Instance list_truthy {A} : Truthy (list A) := λ _, true.
#[global] Instance Nullable_truthy {A} `{Truthy A} : Truthy (Nullable A) :=
  λ o, match o with
       | Undefined | Null => false
       | Value a => truthy a
       end.
(** [string | null], with [None] for [null]. *)
#[global] Instance option_truthy {A} `{Truthy A} : Truthy (option A) :=
  λ o, match o with
       | None => false
       | Some a => truthy a
       end.

(** [a || b] *)
Definition js_or {A} `{Truthy A} (a b : A) : A :=
  if truthy a then a else b.

(** [o?.f] *)
Definition opt_chain {A B} (o : Nullable A) (f : A → Nullable B) : Nullable B :=
  match o with
  | Undefined | Null => Undefined
  | Value a => f a
  end.

(** [o.f]: reading a property of [null] or [undefined] throws. *)
Definition member {A B} (o : Nullable A) (f : A → B) : Completion B :=
  match o with
  | Undefined => Throw (TypeError "Cannot read properties of undefined")
  | Null => Throw (TypeError "Cannot read properties of null")
  | Value a => Normal (f a)
  end.

(** [Array.isArray(o)] *)
Definition Array_isArray {A} (o : Nullable (list A)) : bool :=
  match o with
  | Value _ => true
  | _ => false
  end.

(** [xs.map((x, i) => f x i)] on an array, the callback called in index
    order; the first callback that throws ends the call. *)
Fixpoint map_from {A B} (i : nat) (f : A → nat → Completion B) (xs : list A)
  : Completion (list B) :=
  match xs with
  | [] => Normal []
  | x :: xs' =>
      y ← f x i;
      ys ← map_from (S i) f xs';
      mret (y :: ys)
  end.

(** [o.map(f)] *)
Definition Array_map {A B} (o : Nullable (list A)) (f : A → nat → Completion B)
  : Completion (list B) :=
  xs ← member o id;
  map_from 0 f xs.

(** ** CMS data *)

(** Modelled from the spec: the generated payload types are not part of the
    sources. A link is [{label, url|reference, appearance?}]; the URL and
    the referenced document are carried as strings. *)
Record CMSLinkType : Type := {
  label : string;
  url : Nullable string;
  reference : Nullable string;
  appearance : Nullable string;
}.

(** Modelled from the spec: an entry of a navigation or hero link array,
    [{ link: {...} }]. *)
Record LinkItem : Type := { link : CMSLinkType }.

(** Modelled from the spec: the header and the footer globals,
    [{ navItems: [{ link }] }], the array possibly missing. *)
Record NavGlobal : Type := { navItems : Nullable (list LinkItem) }.

(** Modelled from the spec: rich text and media documents are opaque to the
    components, which only hand them on; they are carried by an identifier.
    A media field holds either the identifier of a document or the
    populated document itself. *)
Inductive RichTextData : Type := EditorState (id : string).
Inductive MediaDoc : Type := MediaDocument (id : string).
Inductive MediaField : Type :=
| MediaId (id : string)
| MediaObject (doc : MediaDoc).

#[global] Instance RichTextData_truthy : Truthy RichTextData := λ _, true.
#[global] Instance MediaField_truthy : Truthy MediaField :=
  λ m, match m with
       | MediaId id => truthy id
       | MediaObject _ => true
       end.

(** [typeof media] *)
Definition typeof_media (m : Nullable MediaField) : string :=
  match m with
  | Undefined => "undefined"
  | Null => "object"
  | Value (MediaId _) => "string"
  | Value (MediaObject _) => "object"
  end.

(** The hero field of a page, [{ links, media, richText }]. *)
Record HeroProps : Type := {
  links : Nullable (list LinkItem);
  media : Nullable MediaField;
  richText : Nullable RichTextData;
}.

(** ** Element trees *)

Inductive PropValue : Type :=
| PString (s : string)
| PBool (b : bool)
| PNull
| PUndefined
| PRichText (r : RichTextData)
| PMedia (m : MediaField).

Abbreviation Props := (gmap string PropValue).

Inductive Key : Type :=
| KeyString (s : string)
| KeyIndex (i : nat).

(** What a component returns. [Empty] is a child expression whose value is
    [false], [null], [undefined] or the empty string: nothing is displayed
    for it. [Nodes] is a child expression whose value is an array of nodes,
    as [xs.map(...)] gives; the keys of its items identify them among each
    other. *)
Inductive Node : Type :=
| Empty
| Text (s : string)
| Element (tag : string) (key : option Key) (props : Props) (children : list Node)
| Nodes (items : list Node).

#[global] Instance RichTextData_eq_dec : EqDecision RichTextData.
Proof. solve_decision. Defined.
#[global] Instance MediaDoc_eq_dec : EqDecision MediaDoc.
Proof. solve_decision. Defined.
#[global] Instance MediaField_eq_dec : EqDecision MediaField.
Proof. solve_decision. Defined.
#[global] Instance PropValue_eq_dec : EqDecision PropValue.
Proof. solve_decision. Defined.
#[global] Instance Key_eq_dec : EqDecision Key.
Proof. solve_decision. Defined.

(** The props object of a JSX element: attributes and spreads are merged
    left to right, a later one overriding an earlier one of the same name. *)
Definition jsx_props (parts : list Props) : Props :=
  foldl (λ acc part, part ∪ acc) ∅ parts.

Definition prop_of_nullable {A} (inj : A → PropValue) (name : string) (o : Nullable A)
  : Props :=
  match o with
  | Undefined => ∅
  | Null => {[ name := PNull ]}
  | Value a => {[ name := inj a ]}
  end.

(** [{...link}]: the own properties of a link; an optional property that is
    missing contributes nothing. *)
Definition spread_link (l : CMSLinkType) : Props :=
  jsx_props [ {[ "label" := PString (label l) ]};
              prop_of_nullable PString "url" (url l);
              prop_of_nullable PString "reference" (reference l);
              prop_of_nullable PString "appearance" (appearance l) ].

Definition prop_richText (r : Nullable RichTextData) : PropValue :=
  match r with
  | Undefined => PUndefined
  | Null => PNull
  | Value d => PRichText d
  end.

Definition prop_media (m : Nullable MediaField) : PropValue :=
  match m with
  | Undefined => PUndefined
  | Null => PNull
  | Value f => PMedia f
  end.

Definition tag_of (n : Node) : option string :=
  match n with
  | Element tag _ _ _ => Some tag
  | _ => None
  end.

Definition key_of (n : Node) : option Key :=
  match n with
  | Element _ key _ _ => key
  | _ => None
  end.

Definition props_of (n : Node) : Props :=
  match n with
  | Element _ _ props _ => props
  | _ => ∅
  end.

Definition children_of (n : Node) : list Node :=
  match n with
  | Element _ _ _ children => children
  | _ => []
  end.

(** All elements with a given tag, in document order. *)
Fixpoint elements_named (name : string) (n : Node) : list Node :=
  match n with
  | Element tag _ _ children =>
      (if decide (tag = name) then [n] else [])
        ++ flat_map (elements_named name) children
  | Nodes items => flat_map (elements_named name) items
  | _ => []
  end.

(** What is displayed for a child: nothing for [Empty], the items of an
    array one after the other. *)
Fixpoint displayed (n : Node) : list Node :=
  match n with
  | Empty => []
  | Nodes items => flat_map displayed items
  | _ => [n]
  end.

(** ** State cells, effects and the commit

    The hooks follow the rules of the framework: an effect registered
    without a dependency array runs after every render, one with an array
    runs after the mount and after a render in which an entry differs from
    the previous render; the callback closes over the values its render
    read; the cleanup a callback returned runs before the effect runs again
    and on unmount. *)

(** The state cells of a page: the value held by the header theme provider,
    and the [useState] cell of [HeaderClient]. [None] is [null]. *)
Record Store : Type := {
  headerTheme : option string;
  theme : option string;
}.

#[global] Instance Store_eq_dec : EqDecision Store.
Proof. solve_decision. Defined.

(** Modelled from the spec: the header theme provider is not part of the
    sources. It exposes the current value and a setter; any consumer may set
    the value, with no validation. *)
Definition setHeaderTheme (v : option string) (s : Store) : Store :=
  {| headerTheme := v; theme := theme s |}.

(** The setter of the [useState] cell of [HeaderClient]. *)
Definition setTheme (v : option string) (s : Store) : Store :=
  {| headerTheme := headerTheme s; theme := v |}.

(** An entry of a dependency array. Theme values are compared by value. The
    setter of the provider is compared by identity; the provider is not part
    of the sources, and its setter is taken to keep one identity across
    renders, as the setter of a state cell does. *)
Inductive Dep : Type :=
| DepSetter (name : string)
| DepTheme (v : option string).

#[global] Instance Dep_eq_dec : EqDecision Dep.
Proof. solve_decision. Defined.

(** [useEffect(callback, deps)]. [deps := None] is a call without a
    dependency array; [cleanup] is the function the callback returns, if it
    returns one. *)
Record Effect : Type := {
  callback : Store → Store;
  cleanup : option (Store → Store);
  deps : option (list Dep);
}.

(** The result of rendering a component. *)
Record Rendered : Type := {
  effects : list Effect;
  output : Node;
}.

(** Whether an effect runs after a render, given the effect registered at
    the same position by the previous render ([None] on mount). *)
Definition deps_changed (prev : option Effect) (e : Effect) : bool :=
  match deps e, prev with
  | None, _ => true
  | Some _, None => true
  | Some d, Some p =>
      match deps p with
      | Some d' => negb (bool_decide (d = d'))
      | None => true
      end
  end.

(** The effects due after a render, each with its predecessor. *)
Fixpoint due (prev cur : list Effect) : list (option Effect * Effect) :=
  match cur with
  | [] => []
  | e :: cur' =>
      (if deps_changed (head prev) e then [(head prev, e)] else [])
        ++ due (tail prev) cur'
  end.

Definition run_cleanup (e : option Effect) (s : Store) : Store :=
  match e ≫= cleanup with
  | Some c => c s
  | None => s
  end.

(** The commit after a render: the cleanups of the effects that are due,
    then their callbacks, in order. *)
Definition commit (prev cur : list Effect) (s : Store) : Store :=
  let d := due prev cur in
  foldl (λ s' pe, callback pe.2 s') (foldl (λ s' pe, run_cleanup pe.1 s') s d) d.

(** Unmounting runs the cleanups of the last render. *)
Definition unmount (last : list Effect) (s : Store) : Store :=
  foldl (λ s' e, run_cleanup (Some e) s') s last.

(** A mounted component: the store and the effects of its last render. *)
Abbreviation Mounted := (Store * list Effect)%type.

Section Lifecycle.
(** [initial] sets up the [useState] cells of the component on mount. *)
Variable initial : Store → Store.
Variable render : Store → Completion Rendered.

Definition mount (s : Store) : Completion Mounted :=
  let s0 := initial s in
  r ← render s0;
  mret (commit [] (effects r) s0, effects r).

Definition rerender (st : Mounted) : Completion Mounted :=
  r ← render st.1;
  mret (commit st.2 (effects r) st.1, effects r).

(** After a state cell changed the component renders again, and again as
    long as its own effects change a state cell. [None]: out of fuel. *)
Fixpoint settle (fuel : nat) (st : Mounted) : Completion (option Mounted) :=
  match fuel with
  | 0 => mret None
  | S fuel' =>
      st' ← rerender st;
      if decide (st'.1 = st.1) then mret (Some st') else settle fuel' st'
  end.
End Lifecycle.

(** ** Components *)

(** src/Header/Nav/index.tsx *)
Definition HeaderNav (data : Nullable NavGlobal) : Completion Node :=
  let navItems := js_or (opt_chain data navItems) (Value []) in
  items ← Array_map navItems (λ item _,
    let link := link item in
    mret (Element "CMSLink" (Some (KeyString (label link)))
            (jsx_props [ spread_link link; {[ "appearance" := PString "link" ]} ])
            []));
  mret (Element "nav" None {[ "className" := PString "flex gap-3 items-center" ]}
          [ Nodes items;
            Element "Link" None {[ "href" := PString "/search" ]}
              [ Element "span" None {[ "className" := PString "sr-only" ]}
                  [ Text "Search" ];
                Element "SearchIcon" None
                  {[ "className" := PString "w-5 text-primary" ]} [] ] ]).

(** src/Footer/Component.tsx. [footerData] is the value the cached global
    resolved to. *)
Definition Footer (footerData : Nullable NavGlobal) : Completion Node :=
  let navItems := js_or (opt_chain footerData navItems) (Value []) in
  items ← Array_map navItems (λ item _,
    let link := link item in
    mret (Element "CMSLink" (Some (KeyString (label link)))
            (jsx_props [ {[ "className" := PString "text-white" ]}; spread_link link ])
            []));
  mret (Element "footer" None
          {[ "className" :=
               PString "mt-auto border-t border-border bg-black dark:bg-card text-white" ]}
          [ Element "div" None
              {[ "className" :=
                   PString "container py-8 gap-8 flex flex-col md:flex-row md:justify-between" ]}
              [ Element "Link" None
                  (jsx_props [ {[ "className" := PString "flex items-center" ]};
                               {[ "href" := PString "/" ]} ])
                  [ Element "Logo" None ∅ [] ];
                Element "div" None
                  {[ "className" :=
                       PString "flex flex-col-reverse items-start md:flex-row gap-4 md:items-center" ]}
                  [ Element "ThemeSelector" None ∅ [];
                    Element "nav" None
                      {[ "className" := PString "flex flex-col md:flex-row gap-4" ]}
                      [ Nodes items ] ] ] ]).

(** The value of a [string | null] expression as a prop. *)
Definition prop_theme (t : option string) : PropValue :=
  match t with
  | Some s => PString s
  | None => PNull
  end.

(** The body of the second effect of [HeaderClient], with [headerTheme] and
    [theme] the values its render read:
    [if (headerTheme && headerTheme !== theme) setTheme(headerTheme)]. *)
Definition sync_theme (headerTheme theme : option string) (s : Store) : Store :=
  if truthy headerTheme && bool_decide (headerTheme ≠ theme)
  then setTheme headerTheme s
  else s.

(** src/Header/Component.client.tsx *)
Definition HeaderClient (data : Nullable NavGlobal) (s : Store) : Completion Rendered :=
  let theme := theme s in
  let headerTheme := headerTheme s in
  let effects :=
    [ {| callback := setHeaderTheme None;
         cleanup := None;
         deps := Some [ DepSetter "setHeaderTheme" ] |};
      {| callback := sync_theme headerTheme theme;
         cleanup := None;
         deps := Some [ DepTheme headerTheme; DepTheme theme ] |} ] in
  nav ← HeaderNav data;
  mret {| effects := effects;
          output :=
            Element "header" None
              (jsx_props [ {[ "className" := PString "container relative z-20   " ]};
                           if truthy theme
                           then {[ "data-theme" := prop_theme theme ]}
                           else ∅ ])
              [ Element "div" None {[ "className" := PString "py-8 flex justify-between" ]}
                  [ Element "Link" None {[ "href" := PString "/" ]}
                      [ Element "Logo" None
                          (jsx_props [ {[ "loading" := PString "eager" ]};
                                       {[ "priority" := PString "high" ]};
                                       {[ "className" := PString "invert dark:invert-0" ]} ])
                          [] ];
                    nav ] ] |}.

(** [useState<string | null>(null)] *)
Definition HeaderClient_initial : Store → Store := setTheme None.

(** The high impact hero block. *)
Definition HighImpactHero (props : HeroProps) : Completion Rendered :=
  let links := links props in
  let media := media props in
  let richText := richText props in
  let effects :=
    [ {| callback := setHeaderTheme (Some "dark");
         cleanup := None;
         deps := None |} ] in
  linkList ←
    (if Array_isArray links then
       n ← member links length;
       if bool_decide (0 < n) then
         items ← Array_map links (λ item i,
           let link := link item in
           mret (Element "li" (Some (KeyIndex i)) ∅
                   [ Element "CMSLink" None (jsx_props [ spread_link link ]) [] ]));
         mret (Element "ul" None {[ "className" := PString "flex md:justify-center gap-4" ]}
                 [ Nodes items ])
       else mret Empty
     else mret Empty);
  mret {| effects := effects;
          output :=
            Element "div" None
              (jsx_props
                 [ {[ "className" :=
                        PString "relative -mt-[10.4rem] flex items-center justify-center text-white" ]};
                   {[ "data-theme" := PString "dark" ]} ])
              [ Element "div" None
                  {[ "className" :=
                       PString "container mb-8 z-10 relative flex items-center justify-center" ]}
                  [ Element "div" None
                      {[ "className" := PString "max-w-[36.5rem] md:text-center" ]}
                      [ if truthy richText
                        then Element "RichText" None
                               (jsx_props [ {[ "className" := PString "mb-6" ]};
                                            {[ "data" := prop_richText richText ]};
                                            {[ "enableGutter" := PBool false ]} ])
                               []
                        else Empty;
                        linkList ] ];
                Element "div" None
                  {[ "className" := PString "min-h-[80vh] select-none" ]}
                  [ if truthy media && String.eqb (typeof_media media) "object"
                    then Element "Media" None
                           (jsx_props [ {[ "fill" := PBool true ]};
                                        {[ "imgClassName" := PString "-z-10 object-cover" ]};
                                        {[ "priority" := PBool true ]};
                                        {[ "resource" := prop_media media ]} ])
                           []
                    else Empty ] ] |}.

(** ** Sessions *)

(** Chaining steps that may throw or run out of fuel. *)
Definition and_then {A B} (m : Completion (option A)) (k : A → Completion (option B))
  : Completion (option B) :=
  o ← m;
  match o with
  | Some a => k a
  | None => mret None
  end.

(** The header mounts on a page whose state cells are [s], and settles. *)
Definition header_mount (fuel : nat) (data : Nullable NavGlobal) (s : Store)
  : Completion (option Mounted) :=
  st ← mount HeaderClient_initial (HeaderClient data) s;
  settle (HeaderClient data) fuel st.

(** Some consumer sets the shared value to [c]; the mounted header renders
    again until it settles. *)
Definition header_observe (fuel : nat) (data : Nullable NavGlobal)
    (c : option string) (st : Mounted) : Completion (option Mounted) :=
  settle (HeaderClient data) fuel (setHeaderTheme c st.1, st.2).

(** The mounted header sees the shared value take the values [cs] in turn. *)
Fixpoint header_session (fuel : nat) (data : Nullable NavGlobal)
    (cs : list (option string)) (st : Mounted) : Completion (option Mounted) :=
  match cs with
  | [] => mret (Some st)
  | c :: cs' =>
      and_then (header_observe fuel data c st) (header_session fuel data cs')
  end.

(** What happens to a hero block: it mounts, renders again (with whatever
    props), or unmounts. *)
Inductive HeroOp : Type :=
| HeroMount (props : HeroProps)
| HeroRender (props : HeroProps)
| HeroUnmount.

(** The store together with the effects of the last render of the hero,
    [None] while no hero is mounted. *)
Abbreviation HeroState := (Store * option (list Effect))%type.

Definition hero_step (op : HeroOp) (st : HeroState) : Completion HeroState :=
  match op, st.2 with
  | HeroMount props, None =>
      m ← mount id (λ _, HighImpactHero props) st.1;
      mret (m.1, Some m.2)
  | HeroRender props, Some last =>
      m ← rerender (λ _, HighImpactHero props) (st.1, last);
      mret (m.1, Some m.2)
  | HeroUnmount, Some last => mret (unmount last st.1, None)
  | _, _ => mret st
  end.

Fixpoint hero_run (ops : list HeroOp) (st : HeroState) : Completion HeroState :=
  match ops with
  | [] => mret st
  | op :: ops' => st' ← hero_step op st; hero_run ops' st'
  end.

(** The header is mounted, then a hero mounts on the same page, the header
    settles and renders. *)
Definition page_with_hero (fuel : nat) (data : Nullable NavGlobal)
    (props : HeroProps) (s : Store) : Completion (option Rendered) :=
  and_then (header_mount fuel data s) (λ st,
    hero ← mount id (λ _, HighImpactHero props) st.1;
    and_then (settle (HeaderClient data) fuel (hero.1, st.2)) (λ st',
      r ← HeaderClient data st'.1;
      mret (Some r))).

(** ** The local display state *)

(** The display theme after the second effect ran for a shared value [c]. *)
Definition display_step (t c : option string) : option string :=
  theme (sync_theme c t {| headerTheme := c; theme := t |}).

(** The last truthy value of a sequence of shared values, [t] if none. *)
Definition last_truthy (t : option string) (cs : list (option string)) : option string :=
  foldl (λ t' c, if truthy c then c else t') t cs.

(** The navigation entries a global supplies: those of its array, none when
    the global or the array is missing. *)
Definition supplied (data : Nullable NavGlobal) : list LinkItem :=
  match data with
  | Value g =>
      match navItems g with
      | Value items => items
      | _ => []
      end
  | _ => []
  end.

(** The link element [HeaderNav] renders for a link. *)
Definition header_link (l : CMSLinkType) : Node :=
  Element "CMSLink" (Some (KeyString (label l)))
    (<[ "appearance" := PString "link" ]> (spread_link l)) [].

(** The link element [Footer] renders for a link. *)
Definition footer_link (l : CMSLinkType) : Node :=
  Element "CMSLink" (Some (KeyString (label l)))
    (spread_link l ∪ {[ "className" := PString "text-white" ]}) [].

(** ** Vocabulary of the statements *)

(** The static search link of the header navigation. *)
Definition search_link : Node :=
  Element "Link" None {[ "href" := PString "/search" ]}
    [ Element "span" None {[ "className" := PString "sr-only" ]} [ Text "Search" ];
      Element "SearchIcon" None {[ "className" := PString "w-5 text-primary" ]} [] ].

(** The tree [Footer] returns around the links [items]. *)
Definition footer_around (items : list Node) : Node :=
  Element "footer" None
    {[ "className" :=
         PString "mt-auto border-t border-border bg-black dark:bg-card text-white" ]}
    [ Element "div" None
        {[ "className" :=
             PString "container py-8 gap-8 flex flex-col md:flex-row md:justify-between" ]}
        [ Element "Link" None
            (<[ "href" := PString "/" ]> {[ "className" := PString "flex items-center" ]})
            [ Element "Logo" None ∅ [] ];
          Element "div" None
            {[ "className" :=
                 PString "flex flex-col-reverse items-start md:flex-row gap-4 md:items-center" ]}
            [ Element "ThemeSelector" None ∅ [];
              Element "nav" None
                {[ "className" := PString "flex flex-col md:flex-row gap-4" ]}
                [ Nodes items ] ] ] ].

(** No two link elements of a tree carry the same key. *)
Definition keyed_uniquely (out : Node) : Prop :=
  NoDup (key_of <$> elements_named "CMSLink" out).

(** The navigation array is missing ([null] or [undefined], or the global
    itself is) or has length 0. *)
Definition nav_missing_or_empty (data : Nullable NavGlobal) : Prop :=
  match opt_chain data navItems with
  | Undefined | Null => True
  | Value items => length items = 0
  end.

Definition home : LinkItem :=
  {| link := {| label := "Home"; url := Value "/";
                reference := Undefined; appearance := Undefined |} |}.

Definition home_twice : Nullable NavGlobal :=
  Value {| navItems := Value [home; home] |}.

(** The two effects [HeaderClient] registers when it renders on [s]. *)
Definition reset_effect : Effect :=
  {| callback := setHeaderTheme None;
     cleanup := None;
     deps := Some [ DepSetter "setHeaderTheme" ] |}.

Definition sync_effect (h t : option string) : Effect :=
  {| callback := sync_theme h t;
     cleanup := None;
     deps := Some [ DepTheme h; DepTheme t ] |}.

Definition header_effects (s : Store) : list Effect :=
  [ reset_effect; sync_effect (headerTheme s) (theme s) ].

(** The second effect has nothing to do on [s]. *)
Definition stable (s : Store) : Prop :=
  display_step (theme s) (headerTheme s) = theme s.

(** A mounted header at rest: its last render was on the current store and
    left it as it is. *)
Definition settled (st : Mounted) : Prop :=
  st.2 = header_effects st.1 ∧ stable st.1.

(** A mounted header before it renders again: if nothing changed since its
    last render, nothing is left to do. *)
Definition pending (st : Mounted) : Prop :=
  ∃ h t, st.2 = [ reset_effect; sync_effect h t ] ∧
         (h = headerTheme st.1 → t = theme st.1 → stable st.1).

(** The store a header at rest reaches from [s]. *)
Definition rest (s : Store) : Store :=
  {| headerTheme := headerTheme s;
     theme := display_step (theme s) (headerTheme s) |}.

(** The only effect [HighImpactHero] registers. *)
Definition hero_effect : Effect :=
  {| callback := setHeaderTheme (Some "dark");
     cleanup := None;
     deps := None |}.

(** The list item of the hero for the link at index [i]. *)
Definition hero_item (i : nat) (item : LinkItem) : Node :=
  Element "li" (Some (KeyIndex i)) ∅
    [ Element "CMSLink" None (spread_link (link item)) [] ].

(** What the hero renders for its links, its rich text and its media. *)
Definition hero_links (links : Nullable (list LinkItem)) : Node :=
  match links with
  | Value (item :: items) =>
      Element "ul" None {[ "className" := PString "flex md:justify-center gap-4" ]}
        [ Nodes (imap hero_item (item :: items)) ]
  | _ => Empty
  end.

Definition hero_richText (richText : Nullable RichTextData) : Node :=
  match richText with
  | Value d =>
      Element "RichText" None
        (jsx_props [ {[ "className" := PString "mb-6" ]};
                     {[ "data" := PRichText d ]};
                     {[ "enableGutter" := PBool false ]} ])
        []
  | _ => Empty
  end.

Definition hero_media (media : Nullable MediaField) : Node :=
  match media with
  | Value (MediaObject doc) =>
      Element "Media" None
        (jsx_props [ {[ "fill" := PBool true ]};
                     {[ "imgClassName" := PString "-z-10 object-cover" ]};
                     {[ "priority" := PBool true ]};
                     {[ "resource" := PMedia (MediaObject doc) ]} ])
        []
  | _ => Empty
  end.

(** The tree of the hero around its three optional sections. *)
Definition hero_around (rich list med : Node) : Node :=
  Element "div" None
    (jsx_props
       [ {[ "className" :=
              PString "relative -mt-[10.4rem] flex items-center justify-center text-white" ]};
         {[ "data-theme" := PString "dark" ]} ])
    [ Element "div" None
        {[ "className" :=
             PString "container mb-8 z-10 relative flex items-center justify-center" ]}
        [ Element "div" None
            {[ "className" := PString "max-w-[36.5rem] md:text-center" ]}
            [ rich; list ] ];
      Element "div" None
        {[ "className" := PString "min-h-[80vh] select-none" ]}
        [ med ] ].

(** The state of a hero block as the component itself produces it: not
    mounted, or mounted with its one effect. *)
Definition hero_state_ok (st : HeroState) : Prop :=
  st.2 = None ∨ st.2 = Some [ hero_effect ].

(** A display theme the header can be in: none, or a truthy string. *)
Definition known (t : option string) : Prop :=
  t = None ∨ truthy t = true.

(** ** A page with the header and the hero *)

(** The two components of a page that use the header theme. *)
Inductive Who : Type :=
| TheHeader
| TheHero.

#[global] Instance Who_eq_dec : EqDecision Who.
Proof. solve_decision. Defined.








(** An optional property of a link as a prop: absent when the property is
    missing. *)
Definition own_prop (o : Nullable string) : option PropValue :=
  match o with
  | Undefined => None
  | Null => Some PNull
  | Value a => Some (PString a)
  end.

(** The link element inside a list item of the hero. *)
Definition hero_cmslink (item : LinkItem) : Node :=
  Element "CMSLink" None (spread_link (link item)) [].

(** * Properties *)

(** ** Completions *)

Lemma bind_Normal {A B} (a : A) (f : A → Completion B) : (Normal a ≫= f) = f a.
Proof. reflexivity. Qed.

Lemma bind_Throw {A B} (e : JSError) (f : A → Completion B) : (Throw e ≫= f) = Throw e.
Proof. reflexivity. Qed.

Lemma mret_Normal {A} (a : A) : (mret a : Completion A) = Normal a.
Proof. reflexivity. Qed.

(** ** Props *)

Lemma jsx_props_nil : jsx_props [] = ∅.
Proof. reflexivity. Qed.

Lemma jsx_props_snoc (parts : list Props) (part : Props) :
  jsx_props (parts ++ [part]) = part ∪ jsx_props parts.
Proof. unfold jsx_props. by rewrite foldl_snoc. Qed.

Lemma jsx_props_one (a : Props) : jsx_props [a] = a.
Proof. unfold jsx_props. cbn. apply (right_id ∅ (∪)). Qed.

Lemma jsx_props_two (a b : Props) : jsx_props [a; b] = b ∪ a.
Proof. change [a; b] with ([a] ++ [b])%list. by rewrite jsx_props_snoc, jsx_props_one. Qed.

(** ** Arrays *)

Lemma map_from_normal {A B} (g : A → nat → B) (xs : list A) (i : nat) :
  map_from i (λ x j, mret (g x j)) xs = Normal (imap (λ j x, g x (i + j)) xs).
Proof.
  revert i. induction xs as [| x xs IH]; intros i; [done |].
  cbn [map_from]. rewrite IH. cbn.
  rewrite Nat.add_0_r. do 2 f_equal.
  apply imap_ext. intros j y _. cbn. f_equal. lia.
Qed.

Lemma map_from_const {A B} (g : A → B) (xs : list A) (i : nat) :
  map_from i (λ x _, mret (g x)) xs = Normal (g <$> xs).
Proof.
  rewrite (map_from_normal (λ x _, g x)). f_equal.
  apply (imap_const g).
Qed.

(** [data?.navItems || []] is always an array: the supplied one, or the
    empty one. *)
Lemma navItems_or_empty (data : Nullable NavGlobal) :
  js_or (opt_chain data navItems) (Value []) = Value (supplied data).
Proof.
  destruct data as [| | [[| | items]]]; reflexivity.
Qed.

Lemma Array_map_value {A B} (xs : list A) (f : A → nat → Completion B) :
  Array_map (Value xs) f = map_from 0 f xs.
Proof. reflexivity. Qed.

Lemma HeaderNav_normal (data : Nullable NavGlobal) :
  HeaderNav data =
  Normal (Element "nav" None {[ "className" := PString "flex gap-3 items-center" ]}
            [ Nodes ((header_link ∘ link) <$> supplied data);
              Element "Link" None {[ "href" := PString "/search" ]}
                [ Element "span" None {[ "className" := PString "sr-only" ]}
                    [ Text "Search" ];
                  Element "SearchIcon" None
                    {[ "className" := PString "w-5 text-primary" ]} [] ] ]).
Proof.
  unfold HeaderNav. rewrite navItems_or_empty, Array_map_value.
  rewrite (map_from_const (λ item, Element "CMSLink" (Some (KeyString (label (link item))))
    (jsx_props [ spread_link (link item); {[ "appearance" := PString "link" ]} ]) [])).
  rewrite bind_Normal, mret_Normal. do 4 f_equal.
  apply list_fmap_ext. intros _ item _. unfold header_link, compose.
  f_equal. by rewrite jsx_props_two, insert_union_singleton_l.
Qed.

Lemma Footer_normal (footerData : Nullable NavGlobal) :
  Footer footerData = Normal (footer_around ((footer_link ∘ link) <$> supplied footerData)).
Proof.
  unfold Footer. rewrite navItems_or_empty, Array_map_value.
  rewrite (map_from_const (λ item, Element "CMSLink" (Some (KeyString (label (link item))))
    (jsx_props [ {[ "className" := PString "text-white" ]}; spread_link (link item) ]) [])).
  rewrite bind_Normal, mret_Normal. unfold footer_around.
  rewrite jsx_props_two, <- insert_union_singleton_l.
  do 8 f_equal.
Qed.

Lemma elements_named_leaves (name : string) (ns : list Node) :
  Forall (λ n, tag_of n = Some name ∧ children_of n = []) ns →
  flat_map (elements_named name) ns = ns.
Proof.
  induction 1 as [| n ns [Htag Hch] _ IH]; [done |].
  cbn [flat_map]. rewrite IH.
  destruct n as [| | tag key props children |]; try discriminate.
  cbn in Htag, Hch. simplify_eq. cbn. by rewrite decide_True.
Qed.

Lemma elements_named_leaves_other (name other : string) (ns : list Node) :
  name ≠ other →
  Forall (λ n, tag_of n = Some other ∧ children_of n = []) ns →
  flat_map (elements_named name) ns = [].
Proof.
  intros Hne. induction 1 as [| n ns [Htag Hch] _ IH]; [done |].
  cbn [flat_map]. rewrite IH.
  destruct n as [| | tag key props children |]; try discriminate.
  cbn in Htag, Hch. simplify_eq. cbn. by rewrite decide_False by congruence.
Qed.

Lemma header_links_leaves (items : list LinkItem) :
  Forall (λ n, tag_of n = Some "CMSLink" ∧ children_of n = [])
         ((header_link ∘ link) <$> items).
Proof. apply Forall_fmap, Forall_true. by intros item. Qed.

Lemma footer_links_leaves (items : list LinkItem) :
  Forall (λ n, tag_of n = Some "CMSLink" ∧ children_of n = [])
         ((footer_link ∘ link) <$> items).
Proof. apply Forall_fmap, Forall_true. by intros item. Qed.

Lemma HeaderNav_links (data : Nullable NavGlobal) (out : Node) :
  HeaderNav data = Normal out →
  elements_named "CMSLink" out = (header_link ∘ link) <$> supplied data.
Proof.
  rewrite HeaderNav_normal. intros [= <-].
  cbn [elements_named flat_map]. repeat (case_decide; [discriminate |]).
  rewrite (elements_named_leaves _ _ (header_links_leaves _)).
  cbn. by rewrite app_nil_r.
Qed.

Lemma Footer_links (footerData : Nullable NavGlobal) (out : Node) :
  Footer footerData = Normal out →
  elements_named "CMSLink" out = (footer_link ∘ link) <$> supplied footerData.
Proof.
  rewrite Footer_normal. intros [= <-]. unfold footer_around.
  cbn [elements_named flat_map]. repeat (case_decide; [discriminate |]).
  rewrite (elements_named_leaves _ _ (footer_links_leaves _)).
  cbn. by rewrite !app_nil_r.
Qed.

(** ** Navigation lists *)

Lemma supplied_nil (data : Nullable NavGlobal) :
  nav_missing_or_empty data → supplied data = [].
Proof.
  destruct data as [| | [[| | items]]]; cbn; try done.
  by destruct items.
Qed.

Lemma keys_of_header_links (items : list LinkItem) :
  key_of <$> ((header_link ∘ link) <$> items)
  = (Some ∘ KeyString ∘ label ∘ link) <$> items.
Proof. rewrite <- list_fmap_compose. by apply list_fmap_ext. Qed.

Lemma keys_of_footer_links (items : list LinkItem) :
  key_of <$> ((footer_link ∘ link) <$> items)
  = (Some ∘ KeyString ∘ label ∘ link) <$> items.
Proof. rewrite <- list_fmap_compose. by apply list_fmap_ext. Qed.

Lemma NoDup_label_keys (items : list LinkItem) :
  NoDup ((Some ∘ KeyString ∘ label ∘ link) <$> items)
  ↔ NoDup ((label ∘ link) <$> items).
Proof.
  rewrite (list_fmap_compose (label ∘ link) (Some ∘ KeyString)).
  split; [apply NoDup_fmap_1 |].
  apply NoDup_fmap_2. intros a b [=]. done.
Qed.

(** C5, as the code has it: for every navigation list of length N supplied
    to the header navigation or to the footer, rendering returns normally
    and exactly N link elements render, in the order of the supplied list,
    each carrying the props of its link and keyed by its label; the keys
    are pairwise distinct exactly when the supplied labels are. *)
Theorem nav_links_in_order (data : Nullable NavGlobal) :
  ∃ nav footer : Node,
    HeaderNav data = Normal nav ∧ Footer data = Normal footer ∧
    length (elements_named "CMSLink" nav) = length (supplied data) ∧
    length (elements_named "CMSLink" footer) = length (supplied data) ∧
    elements_named "CMSLink" nav = (header_link ∘ link) <$> supplied data ∧
    elements_named "CMSLink" footer = (footer_link ∘ link) <$> supplied data ∧
    key_of <$> elements_named "CMSLink" nav
      = (Some ∘ KeyString ∘ label ∘ link) <$> supplied data ∧
    key_of <$> elements_named "CMSLink" footer
      = (Some ∘ KeyString ∘ label ∘ link) <$> supplied data ∧
    (keyed_uniquely nav ↔ NoDup ((label ∘ link) <$> supplied data)) ∧
    (keyed_uniquely footer ↔ NoDup ((label ∘ link) <$> supplied data)).
Proof.
  destruct (HeaderNav data) as [nav |] eqn:Hnav;
    [| by rewrite HeaderNav_normal in Hnav].
  destruct (Footer data) as [footer |] eqn:Hfooter;
    [| by rewrite Footer_normal in Hfooter].
  exists nav, footer. unfold keyed_uniquely.
  rewrite (HeaderNav_links _ _ Hnav), (Footer_links _ _ Hfooter).
  rewrite keys_of_header_links, keys_of_footer_links, !length_fmap.
  repeat split; try done; by apply NoDup_label_keys.
Qed.

(** C5, as stated, fails where two labels collide: the list with two
    entries labelled Home renders two link elements with the same key, in
    the header navigation and in the footer. *)
Lemma colliding_labels_share_a_key :
  ∃ nav footer : Node,
    HeaderNav home_twice = Normal nav ∧ Footer home_twice = Normal footer ∧
    key_of <$> elements_named "CMSLink" nav
      = [ Some (KeyString "Home"); Some (KeyString "Home") ] ∧
    ¬ keyed_uniquely nav ∧ ¬ keyed_uniquely footer.
Proof.
  destruct (HeaderNav home_twice) as [nav |] eqn:Hnav;
    [| by rewrite HeaderNav_normal in Hnav].
  destruct (Footer home_twice) as [footer |] eqn:Hfooter;
    [| by rewrite Footer_normal in Hfooter].
  assert (Hdup : ¬ NoDup [ Some (KeyString "Home"); Some (KeyString "Home") ]).
  { rewrite NoDup_cons. intros [Hin _]. apply Hin. by left. }
  exists nav, footer. unfold keyed_uniquely.
  rewrite (HeaderNav_links _ _ Hnav), (Footer_links _ _ Hfooter).
  repeat split; done.
Qed.

(** C6: for every input whose navigation array is missing ([null] or
    [undefined]) or of length 0, the navigation list defaults to the empty
    list, and neither component throws: the header navigation returns its
    nav element with the static search link as the only thing displayed in
    it, the footer returns its tree with the logo, the theme selector and
    an empty nav, and no link element renders in either. *)
Theorem empty_navigation (data : Nullable NavGlobal) :
  nav_missing_or_empty data →
  js_or (opt_chain data navItems) (Value []) = Value [] ∧
  HeaderNav data =
    Normal (Element "nav" None {[ "className" := PString "flex gap-3 items-center" ]}
              [ Nodes []; search_link ]) ∧
  (∀ nav, HeaderNav data = Normal nav →
     flat_map displayed (children_of nav) = [ search_link ] ∧
     elements_named "CMSLink" nav = []) ∧
  Footer data = Normal (footer_around []) ∧
  (∀ footer, Footer data = Normal footer →
     elements_named "CMSLink" footer = [] ∧
     elements_named "Logo" footer = [ Element "Logo" None ∅ [] ] ∧
     elements_named "ThemeSelector" footer = [ Element "ThemeSelector" None ∅ [] ] ∧
     flat_map displayed (flat_map children_of (elements_named "nav" footer)) = []).
Proof.
  intros Hempty. apply supplied_nil in Hempty.
  rewrite navItems_or_empty, HeaderNav_normal, Footer_normal, Hempty.
  split_and!; try done.
  - by intros nav [= <-].
  - by intros footer [= <-].
Qed.

Lemma empty_navigation_witness :
  nav_missing_or_empty (Value {| navItems := Null |}) ∧
  HeaderNav (Value {| navItems := Null |}) =
    Normal (Element "nav" None {[ "className" := PString "flex gap-3 items-center" ]}
              [ Nodes []; search_link ]) ∧
  Footer (Value {| navItems := Null |}) = Normal (footer_around []).
Proof.
  split; [exact I |].
  pose proof (empty_navigation (Value {| navItems := Null |}) I) as H.
  split; [apply H | apply H].
Defined.

(** ** The header and the shared theme *)

Lemma display_step_truthy (t c : option string) :
  display_step t c = if truthy c then c else t.
Proof.
  unfold display_step, sync_theme. cbn.
  destruct (truthy c); [| done]. cbn.
  case_bool_decide; [done | cbn]. by destruct (decide (c = t)) as [-> |].
Qed.

Lemma display_step_null (t : option string) : display_step t None = t.
Proof. by rewrite display_step_truthy. Qed.

Lemma display_step_idem (t c : option string) :
  display_step (display_step t c) c = display_step t c.
Proof. rewrite !display_step_truthy. by destruct (truthy c) eqn:Hc; rewrite ?Hc. Qed.

Lemma foldl_display_step (t : option string) (cs : list (option string)) :
  foldl display_step t cs = last_truthy t cs.
Proof.
  unfold last_truthy. revert t.
  induction cs as [| c cs IH]; intros t; [done |].
  cbn. by rewrite IH, display_step_truthy.
Qed.

Lemma sync_theme_store (s : Store) :
  sync_theme (headerTheme s) (theme s) s
  = {| headerTheme := headerTheme s;
       theme := display_step (theme s) (headerTheme s) |}.
Proof.
  unfold display_step. destruct s as [h t]. cbn.
  unfold sync_theme. by destruct (truthy h && bool_decide (h ≠ t)).
Qed.

Lemma HeaderClient_normal (data : Nullable NavGlobal) (s : Store) :
  ∃ r, HeaderClient data s = Normal r ∧ effects r = header_effects s.
Proof.
  unfold HeaderClient. rewrite HeaderNav_normal, bind_Normal, mret_Normal.
  by eexists.
Qed.

Lemma deps_changed_sync (h0 t0 h t : option string) :
  deps_changed (Some (sync_effect h0 t0)) (sync_effect h t)
  = negb (bool_decide (h = h0 ∧ t = t0)).
Proof.
  cbn. f_equal. apply bool_decide_ext. split.
  - by intros [= -> ->].
  - by intros [-> ->].
Qed.

(** A render of the mounted header: the first effect is skipped, the second
    runs when a value it depends on changed since the last render. *)
Lemma rerender_header (data : Nullable NavGlobal) (s : Store) (h0 t0 : option string) :
  rerender (HeaderClient data) (s, [ reset_effect; sync_effect h0 t0 ])
  = Normal (if bool_decide (headerTheme s = h0 ∧ theme s = t0)
            then s
            else sync_theme (headerTheme s) (theme s) s,
            header_effects s).
Proof.
  unfold rerender. cbn [fst snd].
  destruct (HeaderClient_normal data s) as (r & -> & Heff).
  rewrite bind_Normal, mret_Normal, Heff. f_equal. f_equal.
  unfold commit, header_effects. cbn [due head tail].
  rewrite deps_changed_sync.
  change (deps_changed (Some reset_effect) reset_effect) with false.
  by case_bool_decide.
Qed.

Lemma rest_stable (s : Store) : stable s → rest s = s.
Proof. unfold stable, rest. destruct s as [h t]. cbn. by intros ->. Qed.

Lemma rest_rest (s : Store) : rest (rest s) = rest s.
Proof. unfold rest. cbn. by rewrite display_step_idem. Qed.

(** Two renders are enough for the header to come to rest. *)
Lemma settle_header (data : Nullable NavGlobal) (k : nat) (st : Mounted) :
  pending st →
  settle (HeaderClient data) (S (S k)) st
  = Normal (Some (rest st.1, header_effects (rest st.1))).
Proof.
  destruct st as [s last]. intros (h0 & t0 & Hlast & Hrest). cbn [fst snd] in *.
  subst last. cbn [settle]. rewrite rerender_header, bind_Normal. cbn [fst snd].
  case_bool_decide as Hsame.
  - destruct Hsame as [<- <-]. rewrite decide_True by done.
    by rewrite rest_stable by auto.
  - rewrite sync_theme_store. fold (rest s).
    destruct (decide (rest s = s)) as [Heq | Hne].
    + by rewrite Heq.
    + cbn [settle]. unfold header_effects at 1.
      rewrite rerender_header, bind_Normal. cbn [fst snd].
      rewrite bool_decide_false.
      * rewrite sync_theme_store. fold (rest (rest s)).
        rewrite rest_rest, decide_True by done. done.
      * intros [_ Ht]. apply Hne. unfold rest. destruct s as [h t].
        cbn in *. by rewrite Ht.
Qed.

Lemma settle_header_settled (data : Nullable NavGlobal) (k : nat) (st : Mounted) :
  pending st →
  ∃ st', settle (HeaderClient data) (S (S k)) st = Normal (Some st') ∧
         settled st' ∧ st'.1 = rest st.1.
Proof.
  intros Hp. eexists. split; [by apply settle_header |].
  split; [| done]. split; [done |]. cbn.
  unfold stable, rest. cbn. apply display_step_idem.
Qed.

(** On mount both effects run: the shared value is reset, and the display
    state takes the value the shared one had when the header rendered. *)
Lemma mount_header (data : Nullable NavGlobal) (s : Store) :
  mount HeaderClient_initial (HeaderClient data) s
  = Normal ({| headerTheme := None; theme := display_step None (headerTheme s) |},
            [ reset_effect; sync_effect (headerTheme s) None ]).
Proof.
  unfold mount.
  destruct (HeaderClient_normal data (HeaderClient_initial s)) as (r & -> & Heff).
  rewrite bind_Normal, mret_Normal, Heff. f_equal. f_equal.
  unfold commit, header_effects, HeaderClient_initial. cbn.
  unfold display_step, sync_theme. cbn.
  by destruct (truthy (headerTheme s) && bool_decide (headerTheme s ≠ None)).
Qed.

Lemma header_mount_settled (data : Nullable NavGlobal) (k : nat) (s : Store) :
  ∃ st, header_mount (S (S k)) data s = Normal (Some st) ∧ settled st ∧
        st.1 = {| headerTheme := None; theme := display_step None (headerTheme s) |}.
Proof.
  unfold header_mount. rewrite mount_header, bind_Normal.
  edestruct settle_header_settled as (st & -> & Hst & Hs); last first.
  - exists st. split_and!; [done | done |]. rewrite Hs. unfold rest.
    cbn [fst snd headerTheme theme]. by rewrite display_step_null.
  - eexists _, _. split; [done |]. intros _ _.
    unfold stable. cbn [fst snd headerTheme theme]. by rewrite display_step_null.
Qed.

Lemma set_settled_pending (c : option string) (st : Mounted) :
  settled st → pending (setHeaderTheme c st.1, st.2).
Proof.
  destruct st as [s last]. intros [Hlast Hst]. cbn in *.
  eexists _, _. split; [done |]. cbn. intros <- _.
  unfold stable in *. by destruct s.
Qed.

Lemma header_observe_settled (data : Nullable NavGlobal) (k : nat)
    (c : option string) (st : Mounted) :
  settled st →
  ∃ st', header_observe (S (S k)) data c st = Normal (Some st') ∧ settled st' ∧
         st'.1 = {| headerTheme := c; theme := display_step (theme st.1) c |}.
Proof.
  intros Hst. unfold header_observe.
  destruct (settle_header_settled data k _ (set_settled_pending c st Hst))
    as (st' & -> & Hst' & Hs).
  by exists st'.
Qed.

Lemma header_session_settled (data : Nullable NavGlobal) (k : nat)
    (cs : list (option string)) (st : Mounted) :
  settled st →
  ∃ st', header_session (S (S k)) data cs st = Normal (Some st') ∧ settled st' ∧
         theme st'.1 = foldl display_step (theme st.1) cs ∧
         headerTheme st'.1 = default (headerTheme st.1) (last cs).
Proof.
  revert st. induction cs as [| c cs IH]; intros st Hst.
  - by exists st.
  - cbn [header_session].
    destruct (header_observe_settled data k c st Hst) as (st1 & -> & Hst1 & Hs1).
    unfold and_then. rewrite bind_Normal.
    destruct (IH st1 Hst1) as (st' & -> & Hst' & Ht & Hh).
    exists st'. split_and!; [done | done | |].
    + rewrite Ht, Hs1. done.
    + rewrite Hh, Hs1, last_cons. cbn [headerTheme]. by destruct (last cs).
Qed.

(** ** The hero block *)

Lemma HighImpactHero_normal (props : HeroProps) :
  HighImpactHero props
  = Normal {| effects := [ hero_effect ];
              output := hero_around (hero_richText (richText props))
                                    (hero_links (links props))
                                    (hero_media (media props)) |}.
Proof.
  unfold HighImpactHero. destruct props as [ls md rt].
  cbn [links media richText].
  assert (Hlist :
    (if Array_isArray ls then
       n ← member ls length;
       if bool_decide (0 < n) then
         items ← Array_map ls (λ item i,
           mret (Element "li" (Some (KeyIndex i)) ∅
                   [ Element "CMSLink" None (jsx_props [ spread_link (link item) ]) [] ]));
         mret (Element "ul" None {[ "className" := PString "flex md:justify-center gap-4" ]}
                 [ Nodes items ])
       else mret Empty
     else mret Empty) = Normal (hero_links ls)).
  { destruct ls as [| | [| item items]]; try reflexivity.
    cbn [Array_isArray member]. rewrite bind_Normal.
    rewrite bool_decide_true by (cbn; lia).
    rewrite Array_map_value.
    rewrite (map_from_normal (λ item i, Element "li" (Some (KeyIndex i)) ∅
      [ Element "CMSLink" None (jsx_props [ spread_link (link item) ]) [] ])).
    rewrite bind_Normal, mret_Normal. unfold hero_links. do 4 f_equal.
    apply imap_ext. intros i x _. unfold hero_item. cbn [Nat.add].
    by rewrite jsx_props_one. }
  rewrite Hlist, bind_Normal, mret_Normal. unfold hero_around.
  f_equal. f_equal. f_equal.
  assert (Hrich :
    (if truthy rt
     then Element "RichText" None
            (jsx_props [ {[ "className" := PString "mb-6" ]};
                         {[ "data" := prop_richText rt ]};
                         {[ "enableGutter" := PBool false ]} ]) []
     else Empty) = hero_richText rt) by by destruct rt.
  assert (Hmedia :
    (if truthy md && String.eqb (typeof_media md) "object"
     then Element "Media" None
            (jsx_props [ {[ "fill" := PBool true ]};
                         {[ "imgClassName" := PString "-z-10 object-cover" ]};
                         {[ "priority" := PBool true ]};
                         {[ "resource" := prop_media md ]} ]) []
     else Empty) = hero_media md).
  { destruct md as [| | [id | doc]]; try reflexivity.
    cbn. by rewrite andb_false_r. }
  by rewrite Hrich, Hmedia.
Qed.

Lemma mount_hero (props : HeroProps) (s : Store) :
  mount id (λ _, HighImpactHero props) s
  = Normal (setHeaderTheme (Some "dark") s, [ hero_effect ]).
Proof. unfold mount. by rewrite HighImpactHero_normal. Qed.

Lemma rerender_hero (props : HeroProps) (s : Store) (last : list Effect) :
  rerender (λ _, HighImpactHero props) (s, last)
  = Normal (setHeaderTheme (Some "dark") (run_cleanup (head last) s), [ hero_effect ]).
Proof. unfold rerender. by rewrite HighImpactHero_normal. Qed.

Lemma hero_step_ok (op : HeroOp) (st : HeroState) :
  hero_state_ok st →
  ∃ st', hero_step op st = Normal st' ∧ hero_state_ok st' ∧
         theme st'.1 = theme st.1 ∧
         (headerTheme st'.1 = headerTheme st.1 ∨ headerTheme st'.1 = Some "dark").
Proof.
  destruct st as [s inst]. unfold hero_state_ok, hero_step. cbn [fst snd].
  intros [-> | ->]; destruct op as [props | props |].
  - rewrite mount_hero. eexists. split; [done |]. cbn. auto.
  - eexists. split; [done |]. cbn. auto.
  - eexists. split; [done |]. cbn. auto.
  - eexists. split; [done |]. cbn. auto.
  - rewrite rerender_hero. eexists. split; [done |]. cbn. auto.
  - eexists. split; [done |]. cbn. auto.
Qed.

Lemma hero_run_ok (ops : list HeroOp) (st : HeroState) :
  hero_state_ok st →
  ∃ st', hero_run ops st = Normal st' ∧ hero_state_ok st' ∧
         theme st'.1 = theme st.1 ∧
         (headerTheme st'.1 = headerTheme st.1 ∨ headerTheme st'.1 = Some "dark").
Proof.
  revert st. induction ops as [| op ops IH]; intros st Hst.
  - exists st. auto.
  - cbn [hero_run].
    destruct (hero_step_ok op st Hst) as (st1 & -> & Hst1 & Ht1 & Hh1).
    rewrite bind_Normal.
    destruct (IH st1 Hst1) as (st' & -> & Hst' & Ht & Hh).
    exists st'. split_and!; [done | done | congruence |].
    destruct Hh as [Hh | Hh]; [rewrite Hh; exact Hh1 | by right].
Qed.

(** C4: on every mount and on every later render of the hero block,
    whatever its props, the state cells and the effects of its previous
    render, the render returns normally with one effect that has no
    dependency array, and the commit leaves the shared theme at dark. *)
Theorem hero_sets_dark (props : HeroProps) (s : Store) (last : list Effect) :
  (∃ r e, HighImpactHero props = Normal r ∧ effects r = [ e ] ∧ deps e = None ∧
          ∀ s', callback e s' = setHeaderTheme (Some "dark") s') ∧
  (∃ st, mount id (λ _, HighImpactHero props) s = Normal st ∧
         headerTheme st.1 = Some "dark") ∧
  (∃ st, rerender (λ _, HighImpactHero props) (s, last) = Normal st ∧
         headerTheme st.1 = Some "dark").
Proof.
  split_and!.
  - rewrite HighImpactHero_normal. by eexists _, hero_effect.
  - rewrite mount_hero. by eexists.
  - rewrite rerender_hero. by eexists.
Qed.

(** C7: whatever happens to the hero block in a page session (mounts,
    renders with any props, unmounts), each of its operations leaves the
    shared theme as it is or sets it to dark, and leaves the display state
    of the header alone: once the shared theme is dark no later operation
    of the hero changes it. Its effect returns no cleanup, so unmounting
    changes nothing. *)
Theorem hero_never_reverts (s : Store) (props : HeroProps) (earlier later : list HeroOp) :
  ∃ st1 st2 st3,
    hero_run earlier (s, None) = Normal st1 ∧
    hero_run later st1 = Normal st2 ∧
    (headerTheme st2.1 = headerTheme st1.1 ∨ headerTheme st2.1 = Some "dark") ∧
    hero_run (HeroMount props :: later) (s, None) = Normal st3 ∧
    headerTheme st3.1 = Some "dark" ∧
    hero_step HeroUnmount st1 = Normal (st1.1, None) ∧
    (∃ r, HighImpactHero props = Normal r ∧
          Forall (λ e, cleanup e = None ∧
                       ∀ s', callback e s' = setHeaderTheme (Some "dark") s')
                 (effects r)).
Proof.
  destruct (hero_run_ok earlier (s, None)) as (st1 & H1 & Hok1 & _ & _); [by left |].
  destruct (hero_run_ok later st1 Hok1) as (st2 & H2 & _ & _ & Hh2).
  destruct (hero_run_ok later (setHeaderTheme (Some "dark") s, Some [ hero_effect ]))
    as (st3 & H3 & _ & _ & Hh3); [by right |].
  exists st1, st2, st3. split_and!; try done.
  - cbn [hero_run]. unfold hero_step at 1. cbn [fst snd].
    by rewrite mount_hero, !bind_Normal.
  - by destruct Hh3.
  - destruct st1 as [s1 inst]. by destruct Hok1 as [Hi | Hi]; cbn in Hi; subst inst.
  - rewrite HighImpactHero_normal. eexists. split; [done |].
    by repeat constructor.
Qed.

(** C8: for every hero input the render returns normally, and each of the
    three sections is rendered or skipped on its own: the rich text exactly
    when [richText] is present, the list of links exactly when [links] is an
    array of length greater than 0 (with one item per link, in order), the
    media exactly when [media] is present and is an object; a skipped
    section leaves nothing to display. *)
Theorem hero_sections_optional (props : HeroProps) :
  ∃ rich list med : Node,
    HighImpactHero props
      = Normal {| effects := [ hero_effect ]; output := hero_around rich list med |} ∧
    (tag_of rich = Some "RichText" ↔ ∃ d, richText props = Value d) ∧
    (rich = Empty ↔ ¬ ∃ d, richText props = Value d) ∧
    (∀ d, richText props = Value d → props_of rich !! "data" = Some (PRichText d)) ∧
    (tag_of list = Some "ul" ↔ ∃ items, links props = Value items ∧ 0 < length items) ∧
    (list = Empty ↔ ¬ ∃ items, links props = Value items ∧ 0 < length items) ∧
    (∀ items, links props = Value items → 0 < length items →
       children_of list = [ Nodes (imap hero_item items) ]) ∧
    (tag_of med = Some "Media" ↔ ∃ doc, media props = Value (MediaObject doc)) ∧
    (med = Empty ↔ ¬ ∃ doc, media props = Value (MediaObject doc)) ∧
    (∀ doc, media props = Value (MediaObject doc) →
       props_of med !! "resource" = Some (PMedia (MediaObject doc))).
Proof.
  exists (hero_richText (richText props)), (hero_links (links props)),
         (hero_media (media props)).
  split; [apply HighImpactHero_normal |].
  destruct props as [ls md rt]. cbn [links media richText].
  split_and!.
  - destruct rt; cbn; (split; [try done; eauto | try done; by intros [? ?]]).
  - destruct rt; cbn; (split; [try done; by intros _ [? ?] | try done]).
    intros H. destruct H. eauto.
  - intros d ->. done.
  - destruct ls as [| | [| item items]]; cbn.
    + split; [done | by intros (? & ? & ?)].
    + split; [done | by intros (? & ? & ?)].
    + split; [done |]. intros (? & [= <-] & Hlen). cbn in Hlen. lia.
    + split; [| done]. intros _. eexists. split; [done |]. cbn. lia.
  - destruct ls as [| | [| item items]]; cbn.
    + split; [by intros _ (? & ? & ?) | done].
    + split; [by intros _ (? & ? & ?) | done].
    + split; [| done]. intros _ (? & [= <-] & Hlen). cbn in Hlen. lia.
    + split; [done |]. intros H. destruct H. eexists. split; [done |]. cbn. lia.
  - intros items -> Hlen. destruct items; [cbn in Hlen; lia | done].
  - destruct md as [| | [id | doc]]; cbn;
      (split; [try done; eauto | try done; by intros [? ?]]).
  - destruct md as [| | [id | doc]]; cbn;
      (split; [try done; by intros _ [? ?] | try done]).
    intros H. destruct H. eauto.
  - intros doc ->. done.
Qed.

(** C9: for every input, the root element of the hero block carries the
    theme attribute with the value dark; the component reads no state
    cell, so neither the shared theme nor the display state of the header
    has a part in it. *)
Theorem hero_root_is_dark (props : HeroProps) :
  ∃ r, HighImpactHero props = Normal r ∧
       tag_of (output r) = Some "div" ∧
       props_of (output r) !! "data-theme" = Some (PString "dark").
Proof.
  rewrite HighImpactHero_normal. eexists. split; [done |]. done.
Qed.

(** ** The display theme of the header *)

Lemma display_step_known (t c : option string) : known t → known (display_step t c).
Proof.
  rewrite display_step_truthy. destruct (truthy c) eqn:Hc; [by right | done].
Qed.

Lemma last_truthy_known (t : option string) (cs : list (option string)) :
  known t → known (last_truthy t cs).
Proof.
  rewrite <- foldl_display_step. revert t.
  induction cs as [| c cs IH]; intros t Ht; [done |].
  cbn. by apply IH, display_step_known.
Qed.

Lemma prop_theme_known (t : option string) :
  known t →
  (if truthy t then Some (prop_theme t) else None) = PString <$> t.
Proof. destruct t as [x |]; intros [Ht | Ht]; try done; by rewrite Ht. Qed.

Lemma HeaderClient_root (data : Nullable NavGlobal) (s : Store) :
  ∃ r, HeaderClient data s = Normal r ∧
       tag_of (output r) = Some "header" ∧
       props_of (output r) !! "data-theme"
         = if truthy (theme s) then Some (prop_theme (theme s)) else None.
Proof.
  unfold HeaderClient. rewrite HeaderNav_normal, bind_Normal, mret_Normal.
  eexists. split; [done |]. split; [done |].
  cbn [output props_of]. rewrite jsx_props_two.
  destruct (truthy (theme s)).
  - apply lookup_union_Some_l, lookup_singleton_eq.
  - by rewrite (left_id ∅ (∪)).
Qed.

(** C1: for every sequence of shared theme values a mounted header sees,
    its display theme is the last truthy value of the sequence (the one it
    had after mounting if there is none); a further shared value changes
    the display theme only if it is not null, and then to that value;
    null never changes it; and dark followed by a reset to null leaves the
    display theme at dark. *)
Theorem header_theme_sticky (data : Nullable NavGlobal) (k : nat) (s : Store)
    (cs : list (option string)) :
  ∃ st0 st st2 : Mounted,
    header_mount (S (S k)) data s = Normal (Some st0) ∧
    header_session (S (S k)) data cs st0 = Normal (Some st) ∧
    theme st.1 = last_truthy (theme st0.1) cs ∧
    (∀ c, ∃ st', header_observe (S (S k)) data c st = Normal (Some st') ∧
                 (theme st'.1 = theme st.1 ∨ (c ≠ None ∧ theme st'.1 = c))) ∧
    (∃ st', header_observe (S (S k)) data None st = Normal (Some st') ∧
            theme st'.1 = theme st.1) ∧
    header_session (S (S k)) data [ Some "dark"; None ] st = Normal (Some st2) ∧
    theme st2.1 = Some "dark" ∧ headerTheme st2.1 = None.
Proof.
  destruct (header_mount_settled data k s) as (st0 & Hm & Hst0 & _).
  destruct (header_session_settled data k cs st0 Hst0) as (st & Hs & Hst & Ht & _).
  destruct (header_session_settled data k [ Some "dark"; None ] st Hst)
    as (st2 & Hs2 & _ & Ht2 & Hh2).
  exists st0, st, st2. split_and!; try done.
  - by rewrite Ht, foldl_display_step.
  - intros c. destruct (header_observe_settled data k c st Hst) as (st' & Ho & _ & Hs').
    exists st'. split; [done |]. rewrite Hs'. cbn [theme fst].
    rewrite display_step_truthy. destruct c as [x |]; [| by left].
    destruct (truthy (Some x)); [by right | by left].
  - destruct (header_observe_settled data k None st Hst) as (st' & Ho & _ & Hs').
    exists st'. split; [done |]. rewrite Hs'. cbn [theme fst]. apply display_step_null.
  - rewrite Ht2. cbn [foldl]. by rewrite display_step_null, display_step_truthy.
Qed.

(** C2: in every state a mounted header reaches, its root element carries
    the theme attribute exactly when its display theme is not null, and
    the value of the attribute is the display theme. On a page whose
    shared theme starts unset, once the hero has mounted and the header
    has settled, the root element of the header carries the theme
    attribute dark. *)
Theorem header_theme_attribute (data : Nullable NavGlobal) (k : nat) (s : Store)
    (cs : list (option string)) (props : HeroProps) (t : option string) :
  (∃ (st0 st : Mounted) (r : Rendered),
     header_mount (S (S k)) data s = Normal (Some st0) ∧
     header_session (S (S k)) data cs st0 = Normal (Some st) ∧
     HeaderClient data st.1 = Normal r ∧
     tag_of (output r) = Some "header" ∧
     props_of (output r) !! "data-theme" = PString <$> theme st.1 ∧
     (is_Some (props_of (output r) !! "data-theme") ↔ theme st.1 ≠ None)) ∧
  (∃ r : Rendered,
     page_with_hero (S (S k)) data props {| headerTheme := None; theme := t |}
       = Normal (Some r) ∧
     tag_of (output r) = Some "header" ∧
     props_of (output r) !! "data-theme" = Some (PString "dark")).
Proof.
  split.
  - destruct (header_mount_settled data k s) as (st0 & Hm & Hst0 & Hs0).
    destruct (header_session_settled data k cs st0 Hst0) as (st & Hs & _ & Ht & _).
    destruct (HeaderClient_root data st.1) as (r & Hr & Htag & Hattr).
    assert (Hknown : known (theme st.1)).
    { rewrite Ht, foldl_display_step. apply last_truthy_known.
      rewrite Hs0. apply display_step_known. by left. }
    rewrite (prop_theme_known _ Hknown) in Hattr.
    exists st0, st, r. split_and!; try done.
    rewrite Hattr, fmap_is_Some. by rewrite not_eq_None_Some.
  - unfold page_with_hero.
    destruct (header_mount_settled data k {| headerTheme := None; theme := t |})
      as (st0 & -> & Hst0 & Hs0).
    unfold and_then at 1. rewrite bind_Normal, mount_hero, bind_Normal. cbn [fst snd].
    destruct (header_observe_settled data k (Some "dark") st0 Hst0)
      as (st & Ho & _ & Hs).
    unfold header_observe in Ho. rewrite Ho.
    unfold and_then. rewrite bind_Normal.
    destruct (HeaderClient_root data st.1) as (r & -> & Htag & Hattr).
    exists r. split; [done |]. split; [done |].
    rewrite Hattr, Hs. cbn [theme]. by rewrite display_step_truthy.
Qed.

(** C3: on every mount of the header, whatever the state cells held
    before, the render returns normally, its first effect depends on the
    setter of the provider only and sets the shared theme to null, and the
    shared theme is null once the mount commit ran and once the header has
    settled. *)
Theorem header_mount_resets (data : Nullable NavGlobal) (k : nat) (s : Store) :
  (∃ r e, HeaderClient data (HeaderClient_initial s) = Normal r ∧
          effects r !! 0 = Some e ∧
          deps e = Some [ DepSetter "setHeaderTheme" ] ∧
          ∀ s', callback e s' = setHeaderTheme None s') ∧
  (∃ st, mount HeaderClient_initial (HeaderClient data) s = Normal st ∧
         headerTheme st.1 = None) ∧
  (∃ st, header_mount (S (S k)) data s = Normal (Some st) ∧
         headerTheme st.1 = None).
Proof.
  split_and!.
  - destruct (HeaderClient_normal data (HeaderClient_initial s)) as (r & Hr & Heff).
    exists r, reset_effect. by rewrite Heff.
  - rewrite mount_header. by eexists.
  - destruct (header_mount_settled data k s) as (st & Hm & _ & Hs).
    exists st. by rewrite Hs.
Qed.

(** C10: the update step of the display state is idempotent. When the
    shared value is null, or equals the display theme, the step leaves the
    state cells as they are; running the same step twice, or the step of
    the next render after it, gives what running it once gives; and so
    does the display theme for a shared value seen twice. *)
Theorem display_update_idempotent (c t : option string) (s : Store) :
  sync_theme None t s = s ∧
  sync_theme t t s = s ∧
  sync_theme c t (sync_theme c t s) = sync_theme c t s ∧
  (let s1 := sync_theme (headerTheme s) (theme s) s in
   sync_theme (headerTheme s1) (theme s1) s1 = s1) ∧
  display_step (display_step t c) c = display_step t c.
Proof.
  split_and!.
  - done.
  - unfold sync_theme. rewrite bool_decide_false by naive_solver.
    by rewrite andb_false_r.
  - unfold sync_theme. by destruct (truthy c && bool_decide (c ≠ t)).
  - cbn zeta. rewrite !sync_theme_store. cbn [headerTheme theme].
    by rewrite display_step_idem.
  - apply display_step_idem.
Qed.

(** ** Runs on concrete pages *)

Example sync_takes_dark :
  sync_theme (Some "dark") None {| headerTheme := Some "dark"; theme := None |}
  = {| headerTheme := Some "dark"; theme := Some "dark" |}.
Proof. reflexivity. Qed.

Example sync_keeps_dark_on_null :
  sync_theme None (Some "dark") {| headerTheme := None; theme := Some "dark" |}
  = {| headerTheme := None; theme := Some "dark" |}.
Proof. reflexivity. Qed.

(** The test of the effect is truthiness: the empty string, though not
    null, does not replace the display theme. *)
Example sync_ignores_empty_string :
  sync_theme (Some "") (Some "dark") {| headerTheme := Some ""; theme := Some "dark" |}
  = {| headerTheme := Some ""; theme := Some "dark" |}.
Proof. reflexivity. Qed.

(** After the shared theme changed to dark the header needs two renders
    to settle: the first runs the effect, the second sees nothing left to
    do. With fuel for one render only it has not settled yet. *)
Example one_render_is_not_enough :
  header_observe 1 Null (Some "dark")
    ({| headerTheme := None; theme := None |},
     header_effects {| headerTheme := None; theme := None |})
  = Normal None.
Proof. reflexivity. Qed.

Example two_renders_settle :
  header_observe 2 Null (Some "dark")
    ({| headerTheme := None; theme := None |},
     header_effects {| headerTheme := None; theme := None |})
  = Normal (Some ({| headerTheme := Some "dark"; theme := Some "dark" |},
                  header_effects {| headerTheme := Some "dark"; theme := Some "dark" |})).
Proof. reflexivity. Qed.

(** A header that mounts while the shared theme is light shows light, and
    has reset the shared theme. *)
Example mount_on_light :
  header_mount 2 Null {| headerTheme := Some "light"; theme := None |}
  = Normal (Some ({| headerTheme := None; theme := Some "light" |},
                  header_effects {| headerTheme := None; theme := Some "light" |})).
Proof. reflexivity. Qed.

Example hero_without_sections :
  output <$> (match HighImpactHero {| links := Null; media := Undefined; richText := Null |} with
              | Normal r => Some r
              | Throw _ => None
              end)
  = Some (hero_around Empty Empty Empty).
Proof. reflexivity. Qed.

Example hero_with_media_id_only :
  output <$> (match HighImpactHero {| links := Value []; media := Value (MediaId "64f0");
                                      richText := Undefined |} with
              | Normal r => Some r
              | Throw _ => None
              end)
  = Some (hero_around Empty Empty Empty).
Proof. reflexivity. Qed.

(** ** The props of the link elements *)

Lemma prop_of_nullable_lookup (name : string) (o : Nullable string) :
  prop_of_nullable PString name o !! name = own_prop o.
Proof. destruct o; cbn; [done | |]; apply lookup_singleton_eq. Qed.

Lemma prop_of_nullable_lookup_ne (name k : string) (o : Nullable string) :
  name ≠ k → prop_of_nullable PString name o !! k = None.
Proof. intros Hne. destruct o; cbn; [done | |]; by apply lookup_singleton_ne. Qed.

Lemma spread_link_unfold (l : CMSLinkType) :
  spread_link l
  = prop_of_nullable PString "appearance" (appearance l)
      ∪ (prop_of_nullable PString "reference" (reference l)
           ∪ (prop_of_nullable PString "url" (url l)
                ∪ {[ "label" := PString (label l) ]})).
Proof.
  unfold spread_link, jsx_props. cbn [foldl]. by rewrite (right_id ∅ (∪)).
Qed.

Lemma spread_link_label (l : CMSLinkType) :
  spread_link l !! "label" = Some (PString (label l)).
Proof.
  rewrite spread_link_unfold.
  rewrite !lookup_union_r by by apply prop_of_nullable_lookup_ne.
  apply lookup_singleton_eq.
Qed.

Lemma spread_link_url (l : CMSLinkType) : spread_link l !! "url" = own_prop (url l).
Proof.
  rewrite spread_link_unfold.
  rewrite !lookup_union_r by by apply prop_of_nullable_lookup_ne.
  rewrite lookup_union, prop_of_nullable_lookup, lookup_singleton_ne by done.
  by destruct (own_prop (url l)).
Qed.

Lemma spread_link_reference (l : CMSLinkType) :
  spread_link l !! "reference" = own_prop (reference l).
Proof.
  rewrite spread_link_unfold.
  rewrite lookup_union_r by by apply prop_of_nullable_lookup_ne.
  rewrite lookup_union, prop_of_nullable_lookup.
  rewrite lookup_union_r by by apply prop_of_nullable_lookup_ne.
  rewrite lookup_singleton_ne by done.
  by destruct (own_prop (reference l)).
Qed.

Lemma spread_link_appearance (l : CMSLinkType) :
  spread_link l !! "appearance" = own_prop (appearance l).
Proof.
  rewrite spread_link_unfold.
  rewrite lookup_union, prop_of_nullable_lookup.
  rewrite !lookup_union_r by by apply prop_of_nullable_lookup_ne.
  rewrite lookup_singleton_ne by done.
  by destruct (own_prop (appearance l)).
Qed.

Lemma spread_link_other (l : CMSLinkType) (k : string) :
  k ≠ "label" → k ≠ "url" → k ≠ "reference" → k ≠ "appearance" →
  spread_link l !! k = None.
Proof.
  intros H1 H2 H3 H4. rewrite spread_link_unfold.
  rewrite !lookup_union_r by by apply prop_of_nullable_lookup_ne.
  by apply lookup_singleton_ne.
Qed.

Lemma displayed_elements (ns : list Node) :
  Forall (λ n, is_Some (tag_of n)) ns → flat_map displayed ns = ns.
Proof.
  induction 1 as [| n ns [tag Htag] _ IH]; [done |].
  cbn [flat_map]. rewrite IH. by destruct n.
Qed.

(** ** More on the navigation *)

(** X1: for every input the header navigation returns normally and
    displays the supplied links in order followed by the static search
    link, which is always there and always last. *)
Theorem header_nav_search_link_last (data : Nullable NavGlobal) :
  ∃ nav,
    HeaderNav data = Normal nav ∧
    tag_of nav = Some "nav" ∧
    flat_map displayed (children_of nav)
      = (((header_link ∘ link) <$> supplied data) ++ [ search_link ])%list ∧
    last (flat_map displayed (children_of nav)) = Some search_link ∧
    length (flat_map displayed (children_of nav)) = S (length (supplied data)).
Proof.
  eexists. split; [apply HeaderNav_normal |]. split; [done |].
  cbn [children_of flat_map displayed].
  rewrite displayed_elements.
  2:{ apply Forall_fmap, Forall_true. intros item. by eexists. }
  fold search_link. rewrite app_nil_r.
  split_and!; [done | apply last_snoc |].
  rewrite length_app, length_fmap. cbn. lia.
Qed.

(** X2: every link element of the header navigation carries the
    appearance link, whatever appearance its link has in the CMS; its
    label, URL and reference are those of its link, and it has no
    children. *)
Theorem header_nav_forces_link_appearance (data : Nullable NavGlobal) :
  ∃ nav,
    HeaderNav data = Normal nav ∧
    Forall2 (λ item n,
               props_of n !! "appearance" = Some (PString "link") ∧
               props_of n !! "label" = Some (PString (label (link item))) ∧
               props_of n !! "url" = own_prop (url (link item)) ∧
               props_of n !! "reference" = own_prop (reference (link item)) ∧
               children_of n = [])
            (supplied data) (elements_named "CMSLink" nav).
Proof.
  destruct (HeaderNav data) as [nav |] eqn:Hnav;
    [| by rewrite HeaderNav_normal in Hnav].
  exists nav. split; [done |]. rewrite (HeaderNav_links _ _ Hnav).
  apply Forall2_fmap_r, Forall_Forall2_diag, Forall_true.
  intros item. unfold compose, header_link. cbn [props_of children_of].
  split_and!; [apply lookup_insert_eq | | | | done].
  - rewrite lookup_insert_ne by done. apply spread_link_label.
  - rewrite lookup_insert_ne by done. apply spread_link_url.
  - rewrite lookup_insert_ne by done. apply spread_link_reference.
Qed.

(** X3: every link element of the footer carries the class text-white and
    the label, URL, reference and appearance of its link as they are in
    the CMS: unlike the header navigation, the footer does not override
    the appearance. *)
Theorem footer_keeps_link_appearance (footerData : Nullable NavGlobal) :
  ∃ footer,
    Footer footerData = Normal footer ∧
    Forall2 (λ item n,
               props_of n !! "className" = Some (PString "text-white") ∧
               props_of n !! "appearance" = own_prop (appearance (link item)) ∧
               props_of n !! "label" = Some (PString (label (link item))) ∧
               props_of n !! "url" = own_prop (url (link item)) ∧
               props_of n !! "reference" = own_prop (reference (link item)) ∧
               children_of n = [])
            (supplied footerData) (elements_named "CMSLink" footer).
Proof.
  destruct (Footer footerData) as [footer |] eqn:Hfooter;
    [| by rewrite Footer_normal in Hfooter].
  exists footer. split; [done |]. rewrite (Footer_links _ _ Hfooter).
  apply Forall2_fmap_r, Forall_Forall2_diag, Forall_true.
  intros item. unfold compose, footer_link. cbn [props_of children_of].
  assert (Hleft : ∀ k v, k ≠ "className" → spread_link (link item) !! k = v →
            (spread_link (link item) ∪ {[ "className" := PString "text-white" ]}) !! k = v).
  { intros k v Hk <-. rewrite lookup_union, lookup_singleton_ne by done.
    by destruct (spread_link (link item) !! k). }
  split_and!; [| | | | | done].
  - rewrite lookup_union_r by by apply spread_link_other.
    apply lookup_singleton_eq.
  - apply Hleft; [done | apply spread_link_appearance].
  - apply Hleft; [done | apply spread_link_label].
  - apply Hleft; [done | apply spread_link_url].
  - apply Hleft; [done | apply spread_link_reference].
Qed.

(** ** More on the hero block *)

Lemma flat_map_imap_single {A B C} (f : B → list C) (g : nat → A → B)
    (h : nat → A → C) (l : list A) :
  (∀ i x, f (g i x) = [ h i x ]) → flat_map f (imap g l) = imap h l.
Proof.
  revert g h. induction l as [| x l IH]; intros g h Hf; [done |].
  cbn [imap flat_map]. rewrite Hf. cbn. f_equal.
  apply IH. intros i y. apply Hf.
Qed.

Lemma elements_named_hero_around (name : string) (rich list med : Node) :
  name ≠ "div" →
  elements_named name (hero_around rich list med)
  = (elements_named name rich ++ elements_named name list ++ elements_named name med)%list.
Proof.
  intros Hne. unfold hero_around. cbn [elements_named flat_map].
  rewrite !decide_False by congruence. cbn.
  by rewrite !app_nil_r, <- !app_assoc.
Qed.

Lemma elements_named_hero_richText (name : string) (rt : Nullable RichTextData) :
  name ≠ "RichText" → elements_named name (hero_richText rt) = [].
Proof.
  intros Hne. destruct rt; try done. cbn. by rewrite decide_False by congruence.
Qed.

Lemma elements_named_hero_media (name : string) (md : Nullable MediaField) :
  name ≠ "Media" → elements_named name (hero_media md) = [].
Proof.
  intros Hne. destruct md as [| | [id | doc]]; try done.
  cbn. by rewrite decide_False by congruence.
Qed.

Lemma elements_named_hero_links (name : string) (h : nat → LinkItem → Node)
    (items : list LinkItem) :
  name ≠ "ul" →
  (∀ i item, elements_named name (hero_item i item) = [ h i item ]) →
  elements_named name (hero_links (Value items)) = imap h items.
Proof.
  intros Hne Hitem. destruct items as [| item items]; [done |].
  unfold hero_links. cbn [elements_named flat_map].
  rewrite decide_False by congruence.
  rewrite (flat_map_imap_single _ _ h) by apply Hitem.
  cbn. by rewrite app_nil_r.
Qed.

(** X4: when the links of the hero are an array, the hero renders one list
    item per link, in order, keyed by its index, so that the keys are
    pairwise distinct even where labels repeat; the link element inside
    an item carries the props of its link as they are, without a key. *)
Theorem hero_links_keyed_by_index (items : list LinkItem)
    (md : Nullable MediaField) (rt : Nullable RichTextData) :
  ∃ r,
    HighImpactHero {| links := Value items; media := md; richText := rt |} = Normal r ∧
    elements_named "li" (output r) = imap hero_item items ∧
    key_of <$> elements_named "li" (output r)
      = (Some ∘ KeyIndex) <$> seq 0 (length items) ∧
    NoDup (key_of <$> elements_named "li" (output r)) ∧
    elements_named "CMSLink" (output r) = hero_cmslink <$> items ∧
    Forall2 (λ item n, key_of n = None ∧ props_of n = spread_link (link item))
            items (elements_named "CMSLink" (output r)).
Proof.
  eexists. split; [apply HighImpactHero_normal |]. cbn [output links media richText].
  assert (Hli : elements_named "li" (hero_around (hero_richText rt)
                  (hero_links (Value items)) (hero_media md)) = imap hero_item items).
  { rewrite elements_named_hero_around by done.
    rewrite elements_named_hero_richText, elements_named_hero_media by done.
    rewrite (elements_named_hero_links "li" hero_item) by done.
    apply app_nil_r. }
  assert (Hlink : elements_named "CMSLink" (hero_around (hero_richText rt)
                    (hero_links (Value items)) (hero_media md)) = hero_cmslink <$> items).
  { rewrite elements_named_hero_around by done.
    rewrite elements_named_hero_richText, elements_named_hero_media by done.
    rewrite (elements_named_hero_links "CMSLink" (λ _, hero_cmslink)) by done.
    rewrite app_nil_r. apply (imap_const hero_cmslink). }
  assert (Hkeys : key_of <$> imap hero_item items
                  = (Some ∘ KeyIndex) <$> seq 0 (length items)).
  { rewrite fmap_imap.
    rewrite <- (imap_seq_0 items (Some ∘ KeyIndex)). by apply imap_ext. }
  rewrite Hli, Hlink, Hkeys. split_and!; try done.
  - apply NoDup_fmap_2; [| apply NoDup_seq]. by intros i j [=].
  - apply Forall2_fmap_r, Forall_Forall2_diag, Forall_true. by intros item.
Qed.

(** ** More on the header *)

(** Decides the comparisons of tags in a goal about [elements_named]. *)
Ltac decide_tags :=
  repeat (case_decide; try discriminate; try congruence).

Lemma HeaderClient_output (data : Nullable NavGlobal) (s : Store) :
  ∃ r nav,
    HeaderClient data s = Normal r ∧ HeaderNav data = Normal nav ∧
    effects r = header_effects s ∧
    children_of (output r)
      = [ Element "div" None {[ "className" := PString "py-8 flex justify-between" ]}
            [ Element "Link" None {[ "href" := PString "/" ]}
                [ Element "Logo" None
                    (jsx_props [ {[ "loading" := PString "eager" ]};
                                 {[ "priority" := PString "high" ]};
                                 {[ "className" := PString "invert dark:invert-0" ]} ])
                    [] ];
              nav ] ] ∧
    props_of (output r)
      = (if truthy (theme s) then {[ "data-theme" := prop_theme (theme s) ]} else ∅)
          ∪ {[ "className" := PString "container relative z-20   " ]}.
Proof.
  unfold HeaderClient. rewrite HeaderNav_normal, bind_Normal, mret_Normal.
  eexists _, _. split_and!; done.
Qed.

Lemma settled_eq (st st' : Mounted) :
  settled st → settled st' → st.1 = st'.1 → st = st'.
Proof.
  destruct st as [s l], st' as [s' l']. intros [Hl _] [Hl' _] Hs.
  cbn in *. by subst.
Qed.

(** X5: what the header renders inside its root element does not depend
    on the state cells: for any two stores the children are the same (the
    logo link and the navigation of [HeaderNav]), the class of the root is
    kept, and the props of the root differ in the theme attribute only.
    The render returns normally for every input, and the link elements of
    the header are those of the supplied navigation, in order. *)
Theorem header_content_ignores_theme (data : Nullable NavGlobal) (s s' : Store) :
  ∃ r r' nav,
    HeaderClient data s = Normal r ∧ HeaderClient data s' = Normal r' ∧
    HeaderNav data = Normal nav ∧
    children_of (output r) = children_of (output r') ∧
    elements_named "nav" (output r) = [ nav ] ∧
    elements_named "CMSLink" (output r) = (header_link ∘ link) <$> supplied data ∧
    length (elements_named "Logo" (output r)) = 1 ∧
    props_of (output r) !! "className" = Some (PString "container relative z-20   ") ∧
    delete "data-theme" (props_of (output r)) = delete "data-theme" (props_of (output r')).
Proof.
  destruct (HeaderClient_output data s) as (r & nav & Hr & Hnav & _ & Hch & Hprops).
  destruct (HeaderClient_output data s') as (r' & nav' & Hr' & Hnav' & _ & Hch' & Hprops').
  assert (nav' = nav) as -> by congruence.
  assert (Htag : tag_of (output r) = Some "header").
  { destruct (HeaderClient_root data s) as (r0 & Hr0 & Htag & _). congruence. }
  assert (Hdel : ∀ (b : bool) (v : PropValue),
            delete "data-theme"
              ((if b then {[ "data-theme" := v ]} else ∅)
                 ∪ {[ "className" := PString "container relative z-20   " ]})
            = ({[ "className" := PString "container relative z-20   " ]} : Props)).
  { intros b v. apply map_eq. intros k.
    destruct (decide (k = "data-theme")) as [-> |].
    - rewrite lookup_delete_eq. symmetry. by apply lookup_singleton_ne.
    - rewrite lookup_delete_ne, lookup_union by done.
      destruct b; rewrite ?lookup_singleton_ne, ?lookup_empty by done;
        by destruct (_ !! k). }
  exists r, r', nav. split_and!; try done.
  - congruence.
  - destruct (output r) as [| | tag key props children |]; try done.
    cbn in Hch, Htag. rewrite HeaderNav_normal in Hnav. simplify_eq.
    cbn [elements_named flat_map]. decide_tags.
    rewrite (elements_named_leaves_other "nav" "CMSLink") by
      (done || apply header_links_leaves).
    by rewrite !app_nil_r.
  - destruct (output r) as [| | tag key props children |]; try done.
    cbn in Hch, Htag. simplify_eq. cbn [elements_named flat_map]. decide_tags.
    rewrite (HeaderNav_links _ _ Hnav). by rewrite !app_nil_r.
  - destruct (output r) as [| | tag key props children |]; try done.
    cbn in Hch, Htag. rewrite HeaderNav_normal in Hnav. simplify_eq.
    cbn [elements_named flat_map]. decide_tags.
    rewrite (elements_named_leaves_other "Logo" "CMSLink") by
      (done || apply header_links_leaves).
    by rewrite !app_nil_r.
  - rewrite Hprops, lookup_union_r; [apply lookup_singleton_eq |].
    destruct (truthy (theme s)); [by apply lookup_singleton_ne | done].
  - rewrite Hprops, Hprops'.
    by rewrite !Hdel.
Qed.

(** X6: in every state a mounted header reaches, the theme attribute of
    its root element, when present, is a non-empty string, the display
    theme; it is never the empty string and never null. *)
Theorem header_theme_attribute_never_empty (data : Nullable NavGlobal) (k : nat)
    (s : Store) (cs : list (option string)) :
  ∃ (st0 st : Mounted) (r : Rendered),
    header_mount (S (S k)) data s = Normal (Some st0) ∧
    header_session (S (S k)) data cs st0 = Normal (Some st) ∧
    HeaderClient data st.1 = Normal r ∧
    theme st.1 ≠ Some "" ∧
    props_of (output r) !! "data-theme" ≠ Some (PString "") ∧
    props_of (output r) !! "data-theme" ≠ Some PNull ∧
    (∀ v, props_of (output r) !! "data-theme" = Some v →
          ∃ x, v = PString x ∧ x ≠ "" ∧ theme st.1 = Some x).
Proof.
  destruct (header_mount_settled data k s) as (st0 & Hm & Hst0 & Hs0).
  destruct (header_session_settled data k cs st0 Hst0) as (st & Hs & _ & Ht & _).
  destruct (HeaderClient_root data st.1) as (r & Hr & _ & Hattr).
  assert (Hknown : known (theme st.1)).
  { rewrite Ht, foldl_display_step. apply last_truthy_known.
    rewrite Hs0. apply display_step_known. by left. }
  rewrite (prop_theme_known _ Hknown) in Hattr.
  assert (Hne : theme st.1 ≠ Some "") by (by intros Heq; destruct Hknown as [H | H];
    rewrite Heq in H).
  exists st0, st, r. split_and!; try done.
  - rewrite Hattr. destruct (theme st.1) as [x |]; [| done]. cbn. congruence.
  - rewrite Hattr. by destruct (theme st.1).
  - intros v. rewrite Hattr. destruct (theme st.1) as [x |]; [| done].
    intros [= <-]. exists x. split_and!; [done | congruence | done].
Qed.

(** X7: the header writes the shared theme on mount only. After the mount
    the shared theme is null, and after any sequence of values set by
    consumers it is the last value set: the renders of the header in
    between never change it. *)
Theorem header_leaves_shared_theme_alone (data : Nullable NavGlobal) (k : nat)
    (s : Store) (cs : list (option string)) :
  ∃ st0 st : Mounted,
    header_mount (S (S k)) data s = Normal (Some st0) ∧
    headerTheme st0.1 = None ∧
    header_session (S (S k)) data cs st0 = Normal (Some st) ∧
    headerTheme st.1 = default None (last cs).
Proof.
  destruct (header_mount_settled data k s) as (st0 & Hm & Hst0 & Hs0).
  destruct (header_session_settled data k cs st0 Hst0) as (st & Hs & _ & _ & Hh).
  exists st0, st. split_and!; try done.
  - by rewrite Hs0.
  - by rewrite Hh, Hs0.
Qed.

(** X8: a header that mounts displays the shared theme its first render
    read, if that is truthy, although the same commit resets the shared
    theme to null; what its state cell held before the mount plays no
    part. *)
Theorem header_mount_shows_theme_at_render (data : Nullable NavGlobal) (k : nat)
    (s : Store) :
  ∃ st : Mounted,
    header_mount (S (S k)) data s = Normal (Some st) ∧
    headerTheme st.1 = None ∧
    theme st.1 = (if truthy (headerTheme s) then headerTheme s else None) ∧
    header_mount (S (S k)) data (setTheme None s) = Normal (Some st).
Proof.
  destruct (header_mount_settled data k s) as (st & Hm & Hst & Hs).
  destruct (header_mount_settled data k (setTheme None s)) as (st' & Hm' & Hst' & Hs').
  assert (st' = st) as -> by (apply settled_eq; [done | done | by rewrite Hs, Hs']).
  exists st. split_and!; try done.
  - by rewrite Hs.
  - by rewrite Hs, <- display_step_truthy.
Qed.


(** ** The header and the hero on one page *)






